(** * Noor Assistant: the conversation state of the chat client

    A shallow embedding of the state-carrying code of the single-page chat
    client: the [App] component (its [useState] cells, its two refs and the
    handlers [handleClearChat] and [handleSendMessage]) and the theme toggle
    of [Header].

    - JavaScript strings are sequences of UTF-16 code units, so that
      [String.prototype.trim] can be written out exactly.
    - The component's state and refs form one record, [App.State]; a handler
      is a function from state to state.  [handleSendMessage] is an [async]
      function with a single [await]: it is split at that point into the part
      that runs when the handler is called and the part that runs when the
      promise of the API call settles.
    - The event loop is a step function on configurations (component state,
      number of API calls that have not settled, the persisted theme). *)

From Stdlib Require Import String Ascii NArith ZArith Bool Arith Lia List.
Import ListNotations.

Set Implicit Arguments.

(* ------------------------------------------------------------------ *)
(** ** JavaScript strings *)

Module JS.

(** A string value: its UTF-16 code units. *)
Definition jsstring := list N.

(** An ASCII literal of the source text. *)
Definition lit (s : string) : jsstring :=
  map N_of_ascii (list_ascii_of_string s).

(** The code units removed by [trim]: ECMAScript's WhiteSpace and
    LineTerminator productions (all of them in the basic plane). *)
Definition isWhiteSpace (c : N) : bool :=
  ((9 <=? c) && (c <=? 13)          (* TAB LF VT FF CR *)
   || (c =? 32)                     (* SPACE *)
   || (c =? 160)                    (* NO-BREAK SPACE *)
   || (c =? 5760)                   (* OGHAM SPACE MARK *)
   || (8192 <=? c) && (c <=? 8202)  (* EN QUAD .. HAIR SPACE *)
   || (c =? 8232) || (c =? 8233)    (* LINE / PARAGRAPH SEPARATOR *)
   || (c =? 8239)                   (* NARROW NO-BREAK SPACE *)
   || (c =? 8287)                   (* MEDIUM MATHEMATICAL SPACE *)
   || (c =? 12288)                  (* IDEOGRAPHIC SPACE *)
   || (c =? 65279))%N.              (* ZERO WIDTH NO-BREAK SPACE *)

Fixpoint trimStart (s : jsstring) : jsstring :=
  match s with
  | [] => []
  | c :: s' => if isWhiteSpace c then trimStart s' else s
  end.

Definition trimEnd (s : jsstring) : jsstring := rev (trimStart (rev s)).

Definition trim (s : jsstring) : jsstring := trimEnd (trimStart s).

(** Truthiness of a string: only the empty string is falsy. *)
Definition truthy (s : jsstring) : bool :=
  match s with [] => false | _ :: _ => true end.

(** Every code unit is white space. *)
Definition blank (s : jsstring) : bool := forallb isWhiteSpace s.

End JS.

Import JS.

(* ------------------------------------------------------------------ *)
(** ** Header.tsx *)

Module Header.

(** ['light' | 'dark'] *)
Inductive Theme : Type := light | dark.

Definition Theme_eqb (a b : Theme) : bool :=
  match a, b with
  | light, light | dark, dark => true
  | _, _ => false
  end.

(** [setTheme(theme === 'light' ? 'dark' : 'light')]: the value handed to
    [setTheme]. *)
Definition toggleTheme (theme : Theme) : Theme :=
  if Theme_eqb theme light then dark else light.

End Header.

Import Header.

(* ------------------------------------------------------------------ *)
(** ** The shapes of the model API that the client reads *)

Module Genai.

(** The [web] object of a grounding chunk.  The client's [Source]
    interface declares both fields [string], but the objects stored in a
    message are the response's own [web] objects, taken through
    [chunk: any] without inspection; a field may be absent. *)
Record Source : Type := mkSource {
  uri : option jsstring;
  title : option jsstring
}.

Record GroundingChunk : Type := mkChunk {
  web : option Source
}.

Record GroundingMetadata : Type := mkMetadata {
  groundingChunks : option (list GroundingChunk)
}.

Record Candidate : Type := mkCandidate {
  groundingMetadata : option GroundingMetadata
}.

Record GenerateContentResponse : Type := mkResponse {
  response_text : jsstring;
  candidates : option (list Candidate)
}.

(** [Content]: one entry of the request's [contents]. *)
Inductive Role : Type := user_role | model_role.

Record Part : Type := mkPart { part_text : jsstring }.

Record Content : Type := mkContent {
  role : Role;
  parts : list Part
}.

(** How the awaited call ends: with a response, or with a throw (the
    promise is rejected, or reading the response throws; either way control
    reaches the [catch] block before anything was appended). *)
Inductive Settlement : Type :=
| Fulfilled (response : GenerateContentResponse)
| Rejected.

(** The client object held in [aiRef]. *)
Inductive GoogleGenAI : Type := Client.

End Genai.

Import Genai.

(* ------------------------------------------------------------------ *)
(** ** App *)

Module App.

Inductive Sender : Type := user | ai.

Definition Sender_eqb (a b : Sender) : bool :=
  match a, b with
  | user, user | ai, ai => true
  | _, _ => false
  end.

(** [sources?: Source[]]: [None] is the absent property. *)
Record Message : Type := mkMessage {
  sender : Sender;
  text : jsstring;
  sources : option (list Source)
}.

(** The [useState] cells and the refs of the component. *)
Record State : Type := mkState {
  messages : list Message;
  isLoading : bool;
  error : option jsstring;
  theme : Theme;
  aiRef : option GoogleGenAI;
  historyRef : list Content
}.

(** State setters. A functional update [setMessages(prev => ...)] is
    applied to the latest value, in the order of the calls. *)
Definition setMessages (f : list Message -> list Message) (st : State) : State :=
  mkState (f (messages st)) (isLoading st) (error st) (theme st)
          (aiRef st) (historyRef st).

Definition setIsLoading (b : bool) (st : State) : State :=
  mkState (messages st) b (error st) (theme st) (aiRef st) (historyRef st).

Definition setError (e : option jsstring) (st : State) : State :=
  mkState (messages st) (isLoading st) e (theme st) (aiRef st) (historyRef st).

Definition setTheme (t : Theme) (st : State) : State :=
  mkState (messages st) (isLoading st) (error st) t (aiRef st) (historyRef st).

Definition setHistory (f : list Content -> list Content) (st : State) : State :=
  mkState (messages st) (isLoading st) (error st) (theme st) (aiRef st)
          (f (historyRef st)).

(** [historyRef.current.push(c)] *)
Definition push (c : Content) : State -> State :=
  setHistory (fun h => h ++ [c]).

(** *** Start-up *)

(** The initialiser of the [theme] cell; [stored] is [localStorage.theme]
    ([None]: no such key), [prefersDark] the result of the media query. *)
Definition initialTheme (stored : option jsstring) (prefersDark : bool) : Theme :=
  match stored with
  | Some v => if list_eq_dec N.eq_dec v (lit "dark") then dark else light
  | None => if prefersDark then dark else light
  end.

(** What the theme effect writes to [localStorage.theme]. *)
Definition storedTheme (t : Theme) : jsstring :=
  match t with dark => lit "dark" | light => lit "light" end.

Definition initFailure : jsstring :=
  lit "Failed to initialize the AI model. Please check your API key.".

(** The state after mounting: the cells' initial values and the effect
    that constructs the client ([constructed = false]: the constructor
    threw). *)
Definition mount (t : Theme) (constructed : bool) : State :=
  if constructed
  then mkState [] false None t (Some Client) []
  else mkState [] false (Some initFailure) t None [].

(** *** handleClearChat *)

Definition handleClearChat (st : State) : State :=
  setHistory (fun _ => []) (setMessages (fun _ => []) st).

(** *** handleSendMessage *)

Definition errorMessage : jsstring :=
  lit "Sorry, something went wrong. Please try again.".

(** [!text.trim() || isLoading] *)
Definition rejects (txt : jsstring) (st : State) : bool :=
  negb (truthy (trim txt)) || isLoading st.

Definition newUserMessage (txt : jsstring) : Message :=
  mkMessage user txt None.

Definition userContent (txt : jsstring) : Content :=
  mkContent user_role [mkPart txt].

Definition modelContent (txt : jsstring) : Content :=
  mkContent model_role [mkPart txt].

(** The statements between the guard and the [try] block. *)
Definition enter (txt : jsstring) (st : State) : State :=
  push (userContent txt)
    (setError None
      (setIsLoading true
        (setMessages (fun prev => prev ++ [newUserMessage txt]) st))).

(** [response.candidates?.[0]?.groundingMetadata?.groundingChunks] *)
Definition groundingChunksOf (response : GenerateContentResponse)
  : option (list GroundingChunk) :=
  match candidates response with
  | None => None
  | Some cs =>
      match nth_error cs 0 with
      | None => None
      | Some c =>
          match groundingMetadata c with
          | None => None
          | Some m => groundingChunks m
          end
      end
  end.

(** [.filter(Boolean)] on values that are an object or absent: an object
    is truthy whatever its fields hold. *)
Fixpoint filterBoolean (A : Type) (l : list (option A)) : list A :=
  match l with
  | [] => []
  | Some a :: l' => a :: filterBoolean l'
  | None :: l' => filterBoolean l'
  end.

(** [groundingChunks?.map(chunk => chunk.web).filter(Boolean) ?? []] *)
Definition sourcesOf (response : GenerateContentResponse) : list Source :=
  match groundingChunksOf response with
  | Some chunks => filterBoolean (map web chunks)
  | None => []
  end.

Definition aiResponse (response : GenerateContentResponse) : Message :=
  mkMessage ai (response_text response) (Some (sourcesOf response)).

(** The rest of the [try] block, after the [await]. *)
Definition onFulfilled (response : GenerateContentResponse) (st : State) : State :=
  setMessages (fun prev => prev ++ [aiResponse response])
    (push (modelContent (response_text response)) st).

(** The [catch] block. *)
Definition onRejected (st : State) : State :=
  setMessages (fun prev => prev ++ [mkMessage ai errorMessage None])
    (setError (Some errorMessage) st).

(** The [finally] block. *)
Definition finally (st : State) : State := setIsLoading false st.

(** How far a call of the handler got before giving control back. *)
Inductive Progress : Type :=
| Returned   (* the guard returned *)
| Settled    (* threw before the API call; catch and finally have run *)
| Awaiting.  (* the API call is issued and not yet settled *)

(** The handler up to its [await]. *)
Definition handleSendMessage_begin (txt : jsstring) (st : State)
  : State * Progress :=
  if rejects txt st then (st, Returned)
  else
    let st1 := enter txt st in
    match aiRef st1 with
    | None => (finally (onRejected st1), Settled)
    | Some _ => (st1, Awaiting)
    end.

(** The handler from its [await] on. *)
Definition handleSendMessage_resume (s : Settlement) (st : State) : State :=
  match s with
  | Fulfilled response => finally (onFulfilled response st)
  | Rejected => finally (onRejected st)
  end.

(** A whole call during which nothing else happens. *)
Definition handleSendMessage (txt : jsstring) (s : Settlement) (st : State)
  : State :=
  match handleSendMessage_begin txt st with
  | (st1, Awaiting) => handleSendMessage_resume s st1
  | (st1, _) => st1
  end.

End App.

Import App.

(* ------------------------------------------------------------------ *)
(** ** The session: the component driven by events *)

Module Session.

(** The component's state together with what lives outside it: the number
    of [generateContent] calls that were issued and have not settled, and
    the theme value kept in the browser's preference store. *)
Record Config : Type := mkConfig {
  state : State;
  inflight : nat;
  localStorage_theme : option jsstring
}.

Inductive Event : Type :=
| SendMessage (txt : jsstring)   (* ChatInput calls onSendMessage *)
| Settle (s : Settlement)        (* the promise of a pending call settles *)
| ClearChat                      (* Header's clear button *)
| ToggleTheme.                   (* Header's theme button *)

(** The theme effect, run after a render in which [theme] changed. *)
Definition themeEffect (c : Config) : Config :=
  mkConfig (state c) (inflight c) (Some (storedTheme (theme (state c)))).

(** The configuration after mounting, with both mount effects run. *)
Definition initial (t : Theme) (constructed : bool) : Config :=
  themeEffect (mkConfig (mount t constructed) 0 None).

(** One event. [None]: the event cannot happen (no call is pending).
    The guard of [handleSendMessage] reads [isLoading] from the render that
    created the handler; an event is handled after the render that follows
    the previous event, so the guard reads the state's current value. *)
Definition step (ev : Event) (c : Config) : option Config :=
  match ev with
  | SendMessage txt =>
      match handleSendMessage_begin txt (state c) with
      | (st, Awaiting) => Some (mkConfig st (S (inflight c)) (localStorage_theme c))
      | (st, _) => Some (mkConfig st (inflight c) (localStorage_theme c))
      end
  | Settle s =>
      match inflight c with
      | 0 => None
      | S n => Some (mkConfig (handleSendMessage_resume s (state c)) n
                              (localStorage_theme c))
      end
  | ClearChat =>
      Some (mkConfig (handleClearChat (state c)) (inflight c)
                     (localStorage_theme c))
  | ToggleTheme =>
      Some (themeEffect
              (mkConfig (setTheme (toggleTheme (theme (state c))) (state c))
                        (inflight c) (localStorage_theme c)))
  end.

Fixpoint run (evs : list Event) (c : Config) : option Config :=
  match evs with
  | [] => Some c
  | ev :: evs' =>
      match step ev c with
      | Some c' => run evs' c'
      | None => None
      end
  end.

(** The configurations a session can be in. *)
Inductive reachable : Config -> Prop :=
| reachable_initial : forall t constructed,
    reachable (initial t constructed)
| reachable_step : forall c ev c',
    reachable c -> step ev c = Some c' -> reachable c'.

(** The same, for sessions in which the chat is never cleared while a
    request is pending. *)
Inductive orderly : Config -> Prop :=
| orderly_initial : forall t constructed,
    orderly (initial t constructed)
| orderly_step : forall c ev c',
    orderly c -> step ev c = Some c' ->
    (ev = ClearChat -> isLoading (state c) = false) ->
    orderly c'.

(** *** Counting turns in the Message Store *)

(** The entry that stands in for a failed reply is the only assistant
    entry without a [sources] property. *)
Definition isFailure (m : Message) : bool :=
  match sender m, sources m with
  | ai, None => true
  | _, _ => false
  end.

Definition isUser (m : Message) : bool := Sender_eqb (sender m) user.

Definition isAi (m : Message) : bool := Sender_eqb (sender m) ai.

Definition count (p : Message -> bool) (l : list Message) : nat :=
  length (filter p l).

(** Turns whose assistant or failure entry is in the store. *)
Definition completedTurns (st : State) : nat := count isAi (messages st).

(** Those of them that ended in the failure entry. *)
Definition failedTurns (st : State) : nat := count isFailure (messages st).

(** The history entry that mirrors a message. *)
Definition shadow (m : Message) : Content :=
  match sender m with
  | user => userContent (text m)
  | ai => modelContent (text m)
  end.

Definition answered (m : Message) : bool := negb (isFailure m).

Definition b2n (b : bool) : nat := if b then 1 else 0.

(** The Message Store entry that a settlement appends. *)
Definition settledEntry (s : Settlement) : Message :=
  match s with
  | Fulfilled response => aiResponse response
  | Rejected => mkMessage ai errorMessage None
  end.

(** An optional value that is there. *)
Definition present (A : Type) (o : option A) : bool :=
  match o with Some _ => true | None => false end.

(** *** Invariants *)

(** A request is pending exactly while [isLoading] holds; the history is
    the image of the answered part of the store; the preference store
    holds the current theme. *)
Definition invariant (c : Config) : Prop :=
  inflight c = b2n (isLoading (state c))
  /\ historyRef (state c)
     = map shadow (filter answered (messages (state c)))
  /\ localStorage_theme c = Some (storedTheme (theme (state c))).

(** Without a clear during a pending request, the store holds one user
    entry per assistant entry, and one more while a request is pending. *)
Definition paired (c : Config) : Prop :=
  count isUser (messages (state c))
  = count isAi (messages (state c)) + b2n (isLoading (state c)).

(** *** Sample data *)

Definition site_a : Source :=
  mkSource (Some (lit "https://a.com")) (Some (lit "A")).

(** A reply whose first candidate carries the given grounding chunks. *)
Definition grounded (txt : jsstring) (chunks : list GroundingChunk)
  : GenerateContentResponse :=
  mkResponse txt (Some [mkCandidate (Some (mkMetadata (Some chunks)))]).

(** A session of one answered turn and a second send. *)
Definition two_sends : list Event :=
  [SendMessage (lit "hi"); Settle (Fulfilled (grounded (lit "hello") []));
   SendMessage (lit "again")].

End Session.

Import Session.

(* ------------------------------------------------------------------ *)
(** ** ChatInput.tsx *)

Module ChatInput.

(** [5 * 24]: five rows of 24px. *)
Definition maxHeight : Z := 5 * 24.

Inductive Overflow : Type := overflow_auto | overflow_hidden.

(** The two style properties that the resize effect assigns. *)
Record TextareaStyle : Type := mkStyle {
  style_height : Z;            (* in px *)
  style_overflowY : Overflow
}.

(** The resize effect; [scrollHeight] is what the textarea reports once its
    height is set to [auto]. *)
Definition resize (scrollHeight : Z) : TextareaStyle :=
  mkStyle (Z.min scrollHeight maxHeight)
          (if (scrollHeight >? maxHeight)%Z then overflow_auto
           else overflow_hidden).

(** [handleSubmit], with [txt] in the box: the text handed to
    [onSendMessage], if any, and the text left in the box. *)
Definition handleSubmit (txt : jsstring) : option jsstring * jsstring :=
  if truthy (trim txt) then (Some txt, []) else (None, txt).

(** The [disabled] property of the send button:
    [isLoading || !text.trim()]. *)
Definition sendDisabled (loading : bool) (txt : jsstring) : bool :=
  loading || negb (truthy (trim txt)).

End ChatInput.

(* ------------------------------------------------------------------ *)
(** ** ChatMessage.tsx *)

Module ChatMessage.

(** The test [message.sources && message.sources.length > 0] that guards
    the Sources block (an array is truthy also when it is empty). *)
Definition hasSources (m : Message) : bool :=
  match sources m with
  | Some (_ :: _) => true
  | _ => false
  end.

(** [new URL(source.uri).hostname]; [None]: the constructor throws.  The
    parser is the browser's: [hostname u] is the host name of the absolute
    URL [u], and [None] when [u] is not one.  An absent [uri] is converted
    to the text of [null] or [undefined], which is no absolute URL. *)
Definition urlHostname (hostname : jsstring -> option jsstring)
  (u : option jsstring) : option jsstring :=
  match u with
  | Some u' => hostname u'
  | None => None
  end.

(** [source.title || new URL(source.uri).hostname]; [None]: it throws. *)
Definition label (hostname : jsstring -> option jsstring) (s : Source)
  : option jsstring :=
  match title s with
  | Some t => if truthy t then Some t else urlHostname hostname (uri s)
  | None => urlHostname hostname (uri s)
  end.

(** One link of the Sources block. *)
Record Link : Type := mkLink {
  href : option jsstring;
  link_title : option jsstring;
  number : nat;
  link_text : jsstring
}.

(** [sources.map((source, index) => ...)], from [index] on; [None]: the
    label of some source throws. *)
Fixpoint links (hostname : jsstring -> option jsstring) (index : nat)
  (l : list Source) : option (list Link) :=
  match l with
  | [] => Some []
  | s :: l' =>
      match label hostname s with
      | None => None
      | Some txt =>
          match links hostname (S index) l' with
          | None => None
          | Some rest => Some (mkLink (uri s) (title s) (index + 1) txt :: rest)
          end
      end
  end.

(** What the bubble holds. *)
Inductive Body : Type :=
| LoadingIndicator
| Markdown (txt : jsstring) (sourcesBlock : option (list Link)).

Record Rendered : Type := mkRendered {
  avatar : bool;   (* the assistant's avatar, and alignment to the left *)
  body : Body
}.

(** The component; [None]: rendering throws. *)
Definition render (hostname : jsstring -> option jsstring) (m : Message)
  (loading : bool) : option Rendered :=
  let isAi := Sender_eqb (sender m) ai in
  if loading then Some (mkRendered isAi LoadingIndicator)
  else if hasSources m
       then match links hostname 0
                    (match sources m with Some l => l | None => [] end) with
            | None => None
            | Some ls => Some (mkRendered isAi (Markdown (text m) (Some ls)))
            end
       else Some (mkRendered isAi (Markdown (text m) None)).

(** The Sources block of what was rendered, if there is one. *)
Definition sourcesBlock (r : Rendered) : option (list Link) :=
  match body r with
  | LoadingIndicator => None
  | Markdown _ b => b
  end.


End ChatMessage.

(* ------------------------------------------------------------------ *)
(** ** What App renders *)

Module Page.

(** The children of [main] (the scroll anchor at its end apart). *)
Inductive Element : Type :=
| Welcome
| ChatMessageElement (message : Message) (loading : bool).

(** [messages[messages.length - 1].sender === 'user'], read only when the
    list is not empty. *)
Definition lastIsUser (ms : list Message) : bool :=
  match nth_error ms (length ms - 1) with
  | Some m => Sender_eqb (sender m) user
  | None => false
  end.

Definition main (st : State) : list Element :=
  (if (length (messages st) =? 0) && negb (isLoading st)
   then [Welcome] else [])
  ++ map (fun msg => ChatMessageElement msg false) (messages st)
  ++ (if isLoading st && (0 <? length (messages st))
         && lastIsUser (messages st)
      then [ChatMessageElement (mkMessage ai [] None) true] else []).

(** [error && <p>...{error}</p>]: the text of the banner, if it is
    rendered. *)
Definition banner (st : State) : option jsstring :=
  match error st with
  | Some e => if truthy e then Some e else None
  | None => None
  end.

(** A submit of the form with [input] in the box, [onSendMessage] being
    [handleSendMessage]: the text left in the box, the state, and how far
    the handler got if it was called. *)
Definition submit (input : jsstring) (st : State)
  : jsstring * State * option Progress :=
  match ChatInput.handleSubmit input with
  | (Some txt, input') =>
      let (st', p) := handleSendMessage_begin txt st in (input', st', Some p)
  | (None, input') => (input', st, None)
  end.

End Page.

(* ------------------------------------------------------------------ *)
(** ** Shapes of the history and of a step *)

Module Trace.

Definition isModel (c : Content) : bool :=
  match role c with model_role => true | user_role => false end.

(** No two entries in a row are the model's. *)
Fixpoint noModelPair (h : list Content) : bool :=
  match h with
  | a :: (b :: _) as rest => negb (isModel a && isModel b) && noModelPair rest
  | _ => true
  end.

(** The history is empty or ends with a user entry. *)
Definition awaitsReply (h : list Content) : bool :=
  negb (isModel (last h (userContent []))).

(** The ways [step] can go. *)
Inductive Stepped (c : Config) : Event -> Config -> Prop :=
| stepped_ignored : forall txt,
    rejects txt (state c) = true ->
    Stepped c (SendMessage txt) c
| stepped_no_client : forall txt,
    trim txt <> [] -> isLoading (state c) = false ->
    aiRef (state c) = None ->
    Stepped c (SendMessage txt)
      (mkConfig (finally (onRejected (enter txt (state c))))
                (inflight c) (localStorage_theme c))
| stepped_issued : forall txt,
    trim txt <> [] -> isLoading (state c) = false ->
    aiRef (state c) = Some Client ->
    Stepped c (SendMessage txt)
      (mkConfig (enter txt (state c)) (S (inflight c)) (localStorage_theme c))
| stepped_settled : forall s n,
    inflight c = S n ->
    Stepped c (Settle s)
      (mkConfig (handleSendMessage_resume s (state c)) n (localStorage_theme c))
| stepped_cleared :
    Stepped c ClearChat
      (mkConfig (handleClearChat (state c)) (inflight c) (localStorage_theme c))
| stepped_toggled :
    Stepped c ToggleTheme
      (themeEffect
         (mkConfig (setTheme (toggleTheme (theme (state c))) (state c))
                   (inflight c) (localStorage_theme c))).

(** What holds of the state whenever a request is pending, and of the
    error and the history at all times. *)
Definition settledShape (c : Config) : Prop :=
  (isLoading (state c) = true ->
   error (state c) = None
   /\ aiRef (state c) = Some Client
   /\ (messages (state c) = [] \/ Page.lastIsUser (messages (state c)) = true)
   /\ awaitsReply (historyRef (state c)) = true)
  /\ (error (state c) = None \/ error (state c) = Some initFailure
      \/ error (state c) = Some errorMessage)
  /\ noModelPair (historyRef (state c)) = true
  /\ Forall (fun m => sender m = user -> sources m = None) (messages (state c)).

(** The store holds the user's messages at the even positions and the
    assistant's at the odd ones, and is of even length exactly when nothing
    is pending. *)
Definition alternates (c : Config) : Prop :=
  (forall i m, nth_error (messages (state c)) i = Some m ->
               sender m = if Nat.even i then user else ai)
  /\ Nat.even (length (messages (state c))) = negb (isLoading (state c)).

(** A session without a client. *)
Definition noClient (c : Config) : Prop :=
  aiRef (state c) = None
  /\ inflight c = 0
  /\ isLoading (state c) = false
  /\ (error (state c) = Some initFailure \/ error (state c) = Some errorMessage)
  /\ Forall (fun h => role h = user_role) (historyRef (state c))
  /\ Forall (fun m => sender m = ai ->
                      text m = errorMessage /\ sources m = None)
            (messages (state c)).


(** The typing placeholder. *)
Definition typing : Page.Element :=
  Page.ChatMessageElement (mkMessage ai [] None) true.

(** Sample data: a text with white space around it. *)
Definition padded_hi : jsstring := lit "  hi ".

End Trace.

Import Trace.

(* ------------------------------------------------------------------ *)
(** ** Blank texts *)

Section Trim.

Lemma trimStart_nil (s : jsstring) :
  trimStart s = [] <-> forallb isWhiteSpace s = true.
Proof.
  induction s as [|c s IH]; simpl.
  - tauto.
  - destruct (isWhiteSpace c); simpl.
    + exact IH.
    + split; discriminate.
Qed.

(** What [trimStart] leaves starts with a code unit that is kept. *)
Lemma trimStart_head (s : jsstring) c r :
  trimStart s = c :: r -> isWhiteSpace c = false.
Proof.
  induction s as [|d s IH]; simpl; [discriminate|].
  destruct (isWhiteSpace d) eqn:E; [exact IH|].
  intros [= -> _]. exact E.
Qed.

Lemma trimStart_suffix (s : jsstring) :
  exists ws, s = ws ++ trimStart s /\ forallb isWhiteSpace ws = true.
Proof.
  induction s as [|c s (ws & Hs & Hws)]; simpl.
  - exists []. auto.
  - destruct (isWhiteSpace c) eqn:E.
    + exists (c :: ws). simpl. rewrite E, Hws. split; [congruence | reflexivity].
    + exists []. auto.
Qed.

(** [text.trim()] is the empty string exactly when every code unit of
    [text] is white space. *)
Lemma trim_nil (s : jsstring) :
  trim s = [] <-> forallb isWhiteSpace s = true.
Proof.
  unfold trim, trimEnd.
  destruct (trimStart_suffix s) as (ws & Hs & Hws).
  destruct (trimStart s) as [|c r] eqn:E.
  - simpl. split; [intros _|reflexivity]. now apply trimStart_nil.
  - apply trimStart_head in E.
    split; intro H.
    + apply (f_equal (@rev N)) in H. rewrite rev_involutive in H. simpl in H.
      apply trimStart_nil in H. rewrite forallb_forall in H.
      specialize (H c). rewrite H in E; [discriminate|].
      apply in_or_app. right. now left.
    + rewrite Hs, forallb_app in H. simpl in H. rewrite E in H.
      rewrite andb_false_r in H. discriminate.
Qed.

Lemma truthy_trim (s : jsstring) : truthy (trim s) = negb (blank s).
Proof.
  unfold blank. destruct (forallb isWhiteSpace s) eqn:E.
  - apply trim_nil in E. now rewrite E.
  - destruct (trim s) eqn:T; [|reflexivity].
    apply trim_nil in T. congruence.
Qed.

Lemma rejects_spec (txt : jsstring) (st : State) :
  rejects txt st = blank txt || isLoading st.
Proof. unfold rejects. now rewrite truthy_trim, negb_involutive. Qed.

End Trim.

(* ------------------------------------------------------------------ *)
(** ** The citations of a reply *)

Lemma filterBoolean_present (A : Type) (l : list (option A)) :
  map Some (filterBoolean l) = filter (@present A) l.
Proof.
  induction l as [|[a|] l IH]; simpl; congruence.
Qed.

Lemma filterBoolean_In (A : Type) (l : list (option A)) (a : A) :
  In a (filterBoolean l) <-> In (Some a) l.
Proof.
  induction l as [|[b|] l IH]; simpl.
  - tauto.
  - rewrite IH. split; (intros [H|H]; [left; congruence | now right]).
  - rewrite IH. split; [now right | intros [H|H]; [discriminate | exact H]].
Qed.

(** C1: at the claim's own input the code does not discard the citation
    whose URI is null.  For the citations
    [{uri: "https://a.com", title: "A"}, {uri: null}] the claim asks for the
    sources [{uri: "https://a.com", title: "A"}]; the appended assistant
    message carries both web objects, the second against the [Source]
    interface, whose [uri] is a [string]. *)
Lemma citation_with_null_uri_is_kept :
  let response :=
    grounded (lit "ok")
      [mkChunk (Some site_a); mkChunk (Some (mkSource None None))] in
  let st := enter (lit "hi") (mount light true) in
  messages (handleSendMessage_resume (Fulfilled response) st)
    = [newUserMessage (lit "hi");
       mkMessage ai (lit "ok") (Some [site_a; mkSource None None])]
  /\ sources (aiResponse response) <> Some [site_a].
Proof.
  split; [reflexivity | discriminate].
Qed.

(** What the handler computes from a fulfilled call: one assistant message
    is appended, whose sources are the web objects of the reply's grounding
    chunks in the order of the chunks; [filter(Boolean)] tests the web
    object, so a chunk without one contributes nothing, and the URI of a
    web object is not looked at.  Without a chunk list the sources are
    empty. *)
Theorem sources_are_the_web_objects :
  (forall response st,
      messages (handleSendMessage_resume (Fulfilled response) st)
        = messages st
          ++ [mkMessage ai (response_text response) (Some (sourcesOf response))]
      /\ match groundingChunksOf response with
         | Some chunks =>
             map Some (sourcesOf response) = filter (@present Source) (map web chunks)
             /\ forall s, In s (sourcesOf response) <-> In (mkChunk (Some s)) chunks
         | None => sourcesOf response = []
         end)
  /\ sourcesOf (grounded (lit "ok") [mkChunk (Some site_a); mkChunk None])
     = [site_a].
Proof.
  split; [|reflexivity].
  intros response st. split; [reflexivity|].
  unfold sourcesOf.
  destruct (groundingChunksOf response) as [chunks|]; [|reflexivity].
  split.
  - apply filterBoolean_present.
  - intro s. rewrite filterBoolean_In, in_map_iff. split.
    + intros ([w] & Hw & Hin). simpl in Hw. now subst w.
    + intro Hin. now exists (mkChunk (Some s)).
Qed.

(* ------------------------------------------------------------------ *)
(** ** The handlers, one call at a time *)

(** C4: when the API call of a send throws, the handler appends exactly
    one assistant message with the fixed failure text to the Message Store,
    appends nothing to the History Adapter, sets the error to that same
    text, and leaves [isLoading] false; [isLoading] is false after a call
    that was fulfilled as well. *)
Theorem failed_call_appends_fixed_text :
  forall st : State,
    let st' := handleSendMessage_resume Rejected st in
    messages st'
      = messages st
        ++ [mkMessage ai (lit "Sorry, something went wrong. Please try again.") None]
    /\ length (messages st') = S (length (messages st))
    /\ historyRef st' = historyRef st
    /\ error st' = Some (lit "Sorry, something went wrong. Please try again.")
    /\ isLoading st' = false
    /\ forall s, isLoading (handleSendMessage_resume s st) = false.
Proof.
  intro st. cbn zeta.
  repeat split; try reflexivity.
  - simpl. rewrite length_app. simpl. lia.
  - now intros [response|].
Qed.

(** C6: a text that is empty after trimming makes the call a no-op: the
    state (Message Store, History Adapter, [isLoading] and all the rest) is
    returned as it was and no API call is issued. *)
Theorem blank_text_is_noop :
  forall (txt : jsstring) (c : Config),
    trim txt = [] ->
    handleSendMessage_begin txt (state c) = (state c, Returned)
    /\ step (SendMessage txt) c = Some c.
Proof.
  intros txt c H.
  assert (E : handleSendMessage_begin txt (state c) = (state c, Returned)).
  { unfold handleSendMessage_begin, rejects. now rewrite H. }
  split; [exact E|].
  unfold step. rewrite E. now destruct c.
Qed.

Lemma blank_text_is_noop_witness :
  let txt : jsstring := [32; 9; 160; 10]%N in
  let c := initial dark true in
  trim txt = []
  /\ handleSendMessage_begin txt (state c) = (state c, Returned)
  /\ step (SendMessage txt) c = Some c.
Proof.
  split; [reflexivity|].
  apply (blank_text_is_noop [32; 9; 160; 10]%N (initial dark true)).
  reflexivity.
Defined.

(** C8: clearing empties the Message Store and the History Adapter and
    leaves the theme, in the state and in the preference store, as it
    was. *)
Theorem clear_empties_and_keeps_theme :
  forall c : Config,
    messages (handleClearChat (state c)) = []
    /\ historyRef (handleClearChat (state c)) = []
    /\ theme (handleClearChat (state c)) = theme (state c)
    /\ exists c', step ClearChat c = Some c'
                  /\ state c' = handleClearChat (state c)
                  /\ localStorage_theme c' = localStorage_theme c.
Proof.
  intro c. repeat split.
  eexists. repeat split.
Qed.

(* ------------------------------------------------------------------ *)
(** ** What every reachable configuration satisfies *)

Section Invariant.

(** The three ways a call of the handler can go. *)
Lemma begin_cases (txt : jsstring) (st : State) :
  (rejects txt st = true
   /\ handleSendMessage_begin txt st = (st, Returned))
  \/ (rejects txt st = false /\ aiRef st = None
      /\ handleSendMessage_begin txt st
         = (finally (onRejected (enter txt st)), Settled))
  \/ (rejects txt st = false /\ aiRef st <> None
      /\ handleSendMessage_begin txt st = (enter txt st, Awaiting)).
Proof.
  unfold handleSendMessage_begin.
  destruct (rejects txt st); [now left | right].
  simpl. destruct (aiRef st); [right | left]; repeat split; discriminate.
Qed.

Lemma rejects_false (txt : jsstring) (st : State) :
  rejects txt st = false -> trim txt <> [] /\ isLoading st = false.
Proof.
  unfold rejects. intro H. apply orb_false_elim in H as [H1 H2].
  split; [|exact H2]. intro E. rewrite E in H1. discriminate.
Qed.

Lemma config_eta (c : Config) :
  mkConfig (state c) (inflight c) (localStorage_theme c) = c.
Proof. now destruct c. Qed.

Lemma shadow_snoc (l : list Message) (m : Message) :
  answered m = true ->
  map shadow (filter answered (l ++ [m]))
  = map shadow (filter answered l) ++ [shadow m].
Proof.
  intro H. rewrite filter_app, map_app. simpl. now rewrite H.
Qed.

Lemma shadow_snoc_failure (l : list Message) (m : Message) :
  answered m = false ->
  map shadow (filter answered (l ++ [m])) = map shadow (filter answered l).
Proof.
  intro H. rewrite filter_app. simpl. rewrite H. now rewrite app_nil_r.
Qed.

Lemma invariant_initial t constructed : invariant (initial t constructed).
Proof. destruct constructed; repeat split. Qed.

Lemma invariant_step ev c c' :
  invariant c -> step ev c = Some c' -> invariant c'.
Proof.
  intros (Hfl & Hh & Hth) Hstep.
  destruct ev as [txt|s| |]; simpl in Hstep.
  - destruct (begin_cases txt (state c)) as [[R E]|[(R & A & E)|(R & A & E)]];
      rewrite E in Hstep; injection Hstep as <-.
    + now rewrite config_eta.
    + apply rejects_false in R as [_ L].
      repeat split; simpl; try assumption.
      * now rewrite Hfl, L.
      * rewrite shadow_snoc_failure by reflexivity.
        rewrite shadow_snoc by reflexivity. now rewrite Hh.
    + apply rejects_false in R as [_ L].
      repeat split; simpl; try assumption.
      * now rewrite Hfl, L.
      * rewrite shadow_snoc by reflexivity. now rewrite Hh.
  - destruct (inflight c) as [|n] eqn:F; [discriminate|].
    injection Hstep as <-.
    assert (n = 0) as -> by (destruct (isLoading (state c)); simpl in Hfl; lia).
    destruct s as [response|]; repeat split; simpl; try assumption.
    + rewrite shadow_snoc by reflexivity. now rewrite Hh.
    + rewrite shadow_snoc_failure by reflexivity. exact Hh.
  - injection Hstep as <-. repeat split; simpl; assumption.
  - injection Hstep as <-. repeat split; simpl; assumption.
Qed.

Lemma reachable_invariant c : reachable c -> invariant c.
Proof.
  induction 1 as [t k|c ev c' _ IH Hstep].
  - apply invariant_initial.
  - exact (invariant_step ev IH Hstep).
Qed.

Lemma run_reachable evs : forall c c',
  reachable c -> run evs c = Some c' -> reachable c'.
Proof.
  induction evs as [|ev evs IH]; simpl; intros c c' Hc Hrun.
  - now injection Hrun as <-.
  - destruct (step ev c) as [c1|] eqn:E; [|discriminate].
    exact (IH c1 c' (reachable_step ev Hc E) Hrun).
Qed.

Lemma orderly_reachable c : orderly c -> reachable c.
Proof.
  induction 1 as [t k|c ev c' _ IH Hstep _].
  - constructor.
  - exact (reachable_step ev IH Hstep).
Qed.

Lemma run_orderly evs : forall c c',
  orderly c -> run evs c = Some c' ->
  Forall (fun ev => ev <> ClearChat) evs -> orderly c'.
Proof.
  induction evs as [|ev evs IH]; simpl; intros c c' Hc Hrun Hev.
  - now injection Hrun as <-.
  - destruct (step ev c) as [c1|] eqn:E; [|discriminate].
    inversion Hev as [|? ? Hne Hrest]; subst.
    apply (IH c1 c'); [|assumption|assumption].
    eapply orderly_step; [exact Hc | exact E | intro; contradiction].
Qed.

End Invariant.

(* ------------------------------------------------------------------ *)
(** ** Turns and the length of the history *)

Section Turns.

Lemma count_snoc (p : Message -> bool) (l : list Message) (m : Message) :
  count p (l ++ [m]) = count p l + b2n (p m).
Proof.
  unfold count. rewrite filter_app, length_app. simpl.
  now destruct (p m).
Qed.

Lemma answered_or_failed (l : list Message) :
  count answered l + count isFailure l = length l.
Proof.
  unfold count, answered.
  induction l as [|m l IH]; simpl; [reflexivity|].
  destruct (isFailure m); simpl; lia.
Qed.

Lemma user_or_ai (l : list Message) :
  count isUser l + count isAi l = length l.
Proof.
  unfold count, isUser, isAi.
  induction l as [|[[|] txt srcs] l IH]; simpl; lia.
Qed.

Lemma orderly_paired c : orderly c -> paired c.
Proof.
  induction 1 as [t k|c ev c' Hc IH Hstep Hclear].
  - now destruct k.
  - pose proof (reachable_invariant (orderly_reachable Hc)) as (Hfl & _ & _).
    unfold paired in *.
    destruct ev as [txt|s| |]; simpl in Hstep.
    + destruct (begin_cases txt (state c)) as [[R E]|[(R & A & E)|(R & A & E)]];
        rewrite E in Hstep; injection Hstep as <-; simpl.
      * exact IH.
      * apply rejects_false in R as [_ L]. rewrite L in IH.
        rewrite !count_snoc. simpl in *. lia.
      * apply rejects_false in R as [_ L]. rewrite L in IH.
        rewrite !count_snoc. simpl in *. lia.
    + destruct (inflight c) as [|n] eqn:F; [discriminate|].
      injection Hstep as <-.
      destruct (isLoading (state c)); [|discriminate].
      destruct s as [response|]; simpl; rewrite !count_snoc; simpl in *; lia.
    + injection Hstep as <-. simpl. now rewrite (Hclear eq_refl).
    + injection Hstep as <-. exact IH.
Qed.

Lemma store_minus_failures c :
  reachable c ->
  length (historyRef (state c)) + failedTurns (state c)
  = length (messages (state c)).
Proof.
  intro Hc. destruct (reachable_invariant Hc) as (_ & Hh & _).
  rewrite Hh, length_map. apply answered_or_failed.
Qed.

End Turns.

(** C2, as the claim states it, fails: after one send whose API call
    throws, the turn is completed (its user entry and its failure entry are
    both in the store, nothing is pending) and the history holds one entry,
    not two. *)
Lemma history_length_after_failed_turn :
  exists c,
    run [SendMessage (lit "hi"); Settle Rejected] (initial light true) = Some c
    /\ reachable c
    /\ messages (state c)
       = [newUserMessage (lit "hi"); mkMessage ai errorMessage None]
    /\ isLoading (state c) = false
    /\ completedTurns (state c) = 1
    /\ length (historyRef (state c)) = 1
    /\ length (historyRef (state c)) <> 2 * completedTurns (state c).
Proof.
  eexists. split; [reflexivity|]. split.
  - apply (@run_reachable
             [SendMessage (lit "hi"); Settle Rejected] (initial light true));
      [constructor | reflexivity].
  - repeat split. discriminate.
Qed.

(** C2, amended: in every reachable state the history is shorter than the
    store by the number of failure entries in the store.  As long as the
    chat is not cleared while a request is pending, the length of the
    history is twice the number of completed turns, less the completed
    turns that ended in the failure entry, plus one while a request is
    pending; so it is twice the number of completed turns when nothing is
    pending and no turn in the store has failed. *)
Theorem history_length_formula :
  forall c : Config,
    reachable c ->
    length (historyRef (state c)) + failedTurns (state c)
    = length (messages (state c))
    /\ (orderly c ->
        length (historyRef (state c)) + failedTurns (state c)
        = 2 * completedTurns (state c) + b2n (isLoading (state c))
        /\ (isLoading (state c) = false -> failedTurns (state c) = 0 ->
            length (historyRef (state c)) = 2 * completedTurns (state c))).
Proof.
  intros c Hc.
  pose proof (store_minus_failures Hc) as Hlen.
  split; [exact Hlen|].
  intro Ho. apply orderly_paired in Ho. unfold paired in Ho.
  pose proof (user_or_ai (messages (state c))) as Hua.
  unfold completedTurns.
  split.
  - lia.
  - intros L F. rewrite L in Ho. simpl in Ho. lia.
Qed.

Lemma history_length_formula_witness :
  exists c,
    run two_sends (initial light true) = Some c
    /\ length (historyRef (state c)) + failedTurns (state c)
       = length (messages (state c))
    /\ length (historyRef (state c)) + failedTurns (state c)
       = 2 * completedTurns (state c) + b2n (isLoading (state c)).
Proof.
  destruct (run two_sends (initial light true)) as [c|] eqn:E;
    [|discriminate E].
  exists c. split; [reflexivity|].
  assert (Ho : orderly c).
  { eapply run_orderly; [apply (orderly_initial light true) | exact E |].
    repeat constructor; discriminate. }
  destruct (history_length_formula (orderly_reachable Ho)) as [H1 H2].
  split; [exact H1 | exact (proj1 (H2 Ho))].
Defined.

(* ------------------------------------------------------------------ *)
(** ** The history as a shadow of the store *)

Section Shadow.

(** Every step other than a clear leaves the history in place and adds
    at most one entry at its end. *)
Lemma step_extends_history ev c c' :
  step ev c = Some c' ->
  (ev = ClearChat /\ historyRef (state c') = [])
  \/ exists more, historyRef (state c') = historyRef (state c) ++ more
                  /\ length more <= 1.
Proof.
  intro Hstep. destruct ev as [txt|s| |]; simpl in Hstep.
  - right.
    destruct (begin_cases txt (state c)) as [[R E]|[(R & A & E)|(R & A & E)]];
      rewrite E in Hstep; injection Hstep as <-; simpl.
    + exists []. rewrite app_nil_r. auto.
    + exists [userContent txt]. auto.
    + exists [userContent txt]. auto.
  - right. destruct (inflight c); [discriminate|]. injection Hstep as <-.
    destruct s as [response|]; simpl.
    + exists [modelContent (response_text response)]. auto.
    + exists []. rewrite app_nil_r. auto.
  - left. injection Hstep as <-. auto.
  - right. injection Hstep as <-. exists []. rewrite app_nil_r. auto.
Qed.

(** The entries without [sources] that the assistant side appends carry
    the fixed failure text. *)
Lemma failures_carry_fixed_text c :
  reachable c ->
  Forall (fun m => isFailure m = true -> text m = errorMessage)
         (messages (state c)).
Proof.
  induction 1 as [t k|c ev c' _ IH Hstep].
  - destruct k; constructor.
  - destruct ev as [txt|s| |]; simpl in Hstep.
    + destruct (begin_cases txt (state c)) as [[R E]|[(R & A & E)|(R & A & E)]];
        rewrite E in Hstep; injection Hstep as <-; simpl.
      * exact IH.
      * rewrite !Forall_app. repeat split; [exact IH| |];
          repeat constructor; discriminate.
      * rewrite Forall_app. split; [exact IH|].
        repeat constructor; discriminate.
    + destruct (inflight c); [discriminate|]. injection Hstep as <-.
      destruct s as [response|]; simpl; rewrite Forall_app;
        (split; [exact IH|]); repeat constructor; discriminate.
    + injection Hstep as <-. constructor.
    + injection Hstep as <-. exact IH.
Qed.

End Shadow.

(** C3, as the claim states it, fails: the failure entry of the store has
    no entry in the history.  After one send whose API call throws, the
    store holds two messages and the history one entry. *)
Lemma failure_entry_has_no_shadow :
  exists c,
    run [SendMessage (lit "hi"); Settle Rejected] (initial light true) = Some c
    /\ reachable c
    /\ messages (state c)
       = [newUserMessage (lit "hi"); mkMessage ai errorMessage None]
    /\ historyRef (state c) = [userContent (lit "hi")]
    /\ historyRef (state c) <> map shadow (messages (state c))
    /\ length (historyRef (state c)) <> length (messages (state c)).
Proof.
  eexists. split; [reflexivity|]. split.
  - apply (@run_reachable
             [SendMessage (lit "hi"); Settle Rejected] (initial light true));
      [constructor | reflexivity].
  - repeat split; discriminate.
Qed.

(** C3, amended: the history is at all times the order-preserving shadow of
    the store without its failure entries: every user message and every
    reply in the store has exactly one entry, in the order of appending,
    and the failure entries (the assistant entries carrying the fixed
    failure text in place of a reply) have none.  A step never reorders or
    drops entries of the history: it empties it, which only a clear does, or
    appends at most one entry.  After sending M1, receiving the reply R1 and
    sending M2 the history is [{user,M1}, {model,R1}, {user,M2}]. *)
Theorem history_shadows_answered_store :
  (forall c : Config,
      reachable c ->
      historyRef (state c) = map shadow (filter answered (messages (state c)))
      /\ Forall (fun m => answered m = false -> text m = errorMessage)
                (messages (state c))
      /\ forall ev c',
          step ev c = Some c' ->
          (ev = ClearChat /\ historyRef (state c') = [])
          \/ exists more, historyRef (state c') = historyRef (state c) ++ more
                          /\ length more <= 1)
  /\ (forall t (M1 M2 : jsstring) (R1 : GenerateContentResponse),
         trim M1 <> [] -> trim M2 <> [] ->
         exists c,
           run [SendMessage M1; Settle (Fulfilled R1); SendMessage M2]
               (initial t true) = Some c
           /\ historyRef (state c)
              = [userContent M1; modelContent (response_text R1); userContent M2]).
Proof.
  split.
  - intros c Hc. split; [|split].
    + now destruct (reachable_invariant Hc) as (_ & Hh & _).
    + pose proof (failures_carry_fixed_text Hc) as HF.
      eapply Forall_impl; [|exact HF].
      intros m Hm Ha. apply Hm. unfold answered in Ha.
      now destruct (isFailure m).
    + intros ev c'. apply step_extends_history.
  - intros t M1 M2 R1 H1 H2.
    assert (B : forall M st, trim M <> [] -> isLoading st = false ->
                             aiRef st = Some Client ->
                             handleSendMessage_begin M st = (enter M st, Awaiting)).
    { intros M st HM HL HA. unfold handleSendMessage_begin, rejects.
      rewrite HL. destruct (trim M); [contradiction|]. simpl. now rewrite HA. }
    eexists. split.
    + simpl. rewrite (B M1) by (assumption || reflexivity). simpl.
      rewrite (B M2) by (assumption || reflexivity). reflexivity.
    + reflexivity.
Qed.

Lemma history_shadows_answered_store_witness :
  historyRef (state (initial light true))
  = map shadow (filter answered (messages (state (initial light true))))
  /\ exists c,
      run [SendMessage (lit "M1"); Settle (Fulfilled (grounded (lit "R1") []));
           SendMessage (lit "M2")] (initial light true) = Some c
      /\ historyRef (state c)
         = [userContent (lit "M1"); modelContent (lit "R1"); userContent (lit "M2")].
Proof.
  split.
  - exact (proj1 (proj1 history_shadows_answered_store
                        (initial light true) (reachable_initial light true))).
  - apply (proj2 history_shadows_answered_store
                 light (lit "M1") (lit "M2") (grounded (lit "R1") []));
      discriminate.
Defined.

(* ------------------------------------------------------------------ *)
(** ** Sending *)

(** C5, as the claim states it, fails: a text that is not blank appends
    nothing while a request is pending; the guard returns. *)
Lemma send_while_loading_appends_nothing :
  exists c,
    run [SendMessage (lit "first")] (initial light true) = Some c
    /\ reachable c
    /\ trim (lit "second") <> []
    /\ handleSendMessage_begin (lit "second") (state c) = (state c, Returned)
    /\ messages (fst (handleSendMessage_begin (lit "second") (state c)))
       <> messages (state c) ++ [newUserMessage (lit "second")]
    /\ historyRef (fst (handleSendMessage_begin (lit "second") (state c)))
       <> historyRef (state c) ++ [userContent (lit "second")].
Proof.
  eexists. split; [reflexivity|]. split.
  - apply (@run_reachable [SendMessage (lit "first")] (initial light true));
      [constructor | reflexivity].
  - repeat split; discriminate.
Qed.

(** C5, amended: for every text that is not empty after trimming, sent
    while no request is pending ([isLoading] false), the handler appends
    exactly one entry [{sender: user, text}] to the Message Store and exactly
    one entry [{role: user, parts: [text]}] to the History Adapter, sets
    [isLoading] and clears the error, and only then issues the API call (or,
    without a client, takes the failure path from that state). *)
Theorem send_appends_user_entry :
  forall (txt : jsstring) (st : State),
    trim txt <> [] ->
    isLoading st = false ->
    let st1 := enter txt st in
    messages st1 = messages st ++ [mkMessage user txt None]
    /\ historyRef st1 = historyRef st ++ [mkContent user_role [mkPart txt]]
    /\ isLoading st1 = true
    /\ error st1 = None
    /\ match aiRef st with
       | Some _ => handleSendMessage_begin txt st = (st1, Awaiting)
       | None => handleSendMessage_begin txt st
                 = (finally (onRejected st1), Settled)
       end.
Proof.
  intros txt st Htxt Hload st1.
  repeat split.
  unfold handleSendMessage_begin, rejects. rewrite Hload.
  destruct (trim txt); [contradiction|]. simpl.
  now destruct (aiRef st).
Qed.

Lemma send_appends_user_entry_witness :
  let st := mount light true in
  let st1 := enter (lit "hi") st in
  messages st1 = [mkMessage user (lit "hi") None]
  /\ historyRef st1 = [mkContent user_role [mkPart (lit "hi")]]
  /\ isLoading st1 = true
  /\ error st1 = None
  /\ handleSendMessage_begin (lit "hi") st = (st1, Awaiting).
Proof.
  apply (send_appends_user_entry (lit "hi") (mount light true));
    [discriminate | reflexivity].
Defined.

(** C7: while [isLoading] is true a call of the handler is a no-op: the
    state is returned as it was and no API call is issued.  Hence at most
    one request is pending in any reachable configuration, and between the
    issue of a request and its settlement no send changes the Message Store
    or the History Adapter. *)
Theorem single_flight :
  (forall (txt : jsstring) (st : State),
      isLoading st = true ->
      handleSendMessage_begin txt st = (st, Returned))
  /\ (forall c : Config,
         reachable c ->
         inflight c <= 1
         /\ (0 < inflight c <-> isLoading (state c) = true)
         /\ forall txt, 0 < inflight c -> step (SendMessage txt) c = Some c).
Proof.
  assert (G : forall txt st, isLoading st = true ->
                             handleSendMessage_begin txt st = (st, Returned)).
  { intros txt st L. unfold handleSendMessage_begin, rejects.
    now rewrite L, orb_true_r. }
  split; [exact G|].
  intros c Hc. destruct (reachable_invariant Hc) as (Hfl & _ & _).
  destruct (isLoading (state c)) eqn:L; simpl in Hfl; rewrite Hfl.
  - split; [lia|]. split; [split; [reflexivity | lia]|].
    intros txt _. unfold step. rewrite (G txt (state c) L).
    apply f_equal, config_eta.
  - split; [lia|]. split; [split; [lia | discriminate]|].
    intros txt H. lia.
Qed.

Lemma single_flight_witness :
  exists c,
    run [SendMessage (lit "first")] (initial light true) = Some c
    /\ isLoading (state c) = true
    /\ handleSendMessage_begin (lit "second") (state c) = (state c, Returned)
    /\ inflight c <= 1
    /\ step (SendMessage (lit "second")) c = Some c.
Proof.
  destruct (run [SendMessage (lit "first")] (initial light true)) as [c|] eqn:E;
    [|discriminate E].
  exists c. split; [reflexivity|].
  assert (Hc : reachable c).
  { eapply run_reachable; [apply (reachable_initial light true) | exact E]. }
  assert (L : isLoading (state c) = true) by (now injection E as <-).
  destruct (proj2 single_flight c Hc) as (H1 & H2 & H3).
  repeat split.
  - exact L.
  - exact (proj1 single_flight (lit "second") (state c) L).
  - exact H1.
  - apply H3, H2, L.
Defined.

(* ------------------------------------------------------------------ *)
(** ** Clearing, and the theme *)

(** C10: clearing changes the messages and the history only: [isLoading]
    and the error (and the theme and the client) keep their values, and so
    does the number of pending requests.  A clear during a pending request
    does not cancel it: its settlement is still handled and appends its
    entry to the emptied store. *)
Theorem clear_keeps_loading_and_error :
  forall c : Config,
    isLoading (handleClearChat (state c)) = isLoading (state c)
    /\ error (handleClearChat (state c)) = error (state c)
    /\ theme (handleClearChat (state c)) = theme (state c)
    /\ aiRef (handleClearChat (state c)) = aiRef (state c)
    /\ exists c',
        step ClearChat c = Some c'
        /\ state c' = handleClearChat (state c)
        /\ inflight c' = inflight c
        /\ forall s, 0 < inflight c ->
             exists c'', step (Settle s) c' = Some c''
                         /\ messages (state c'') = [settledEntry s].
Proof.
  intro c. repeat split.
  eexists. repeat split.
  intros s Hpending. simpl.
  destruct (inflight c) as [|n]; [inversion Hpending|].
  eexists. split; [reflexivity|].
  now destruct s.
Qed.

Lemma clear_keeps_loading_and_error_witness :
  exists c c' c'',
    run [SendMessage (lit "hi"); Settle Rejected; SendMessage (lit "again")]
        (initial light true) = Some c
    /\ isLoading (state c) = true
    /\ error (state c) = None
    /\ step ClearChat c = Some c'
    /\ isLoading (state c') = true
    /\ inflight c' = 1
    /\ step (Settle (Fulfilled (grounded (lit "late") []))) c' = Some c''
    /\ messages (state c'') = [mkMessage ai (lit "late") (Some [])].
Proof.
  destruct (run [SendMessage (lit "hi"); Settle Rejected; SendMessage (lit "again")]
                (initial light true)) as [c|] eqn:E; [|discriminate E].
  injection E as E.
  destruct (clear_keeps_loading_and_error c)
    as (Hl & _ & _ & _ & c' & Hstep & Hst & Hfl & Hlate).
  assert (P : 0 < inflight c) by (rewrite <- E; simpl; lia).
  destruct (Hlate (Fulfilled (grounded (lit "late") [])) P) as (c'' & Hs & Hm).
  exists c, c', c''.
  repeat split; try assumption.
  - now rewrite <- E.
  - now rewrite <- E.
  - rewrite Hst, Hl. now rewrite <- E.
  - rewrite Hfl. now rewrite <- E.
Defined.

(** C9: toggling light gives dark, toggling dark gives light, and two
    toggles give back the theme they started from; in a session two theme
    toggles in a row restore the configuration, the value in the preference
    store included, and that stored value reads back as the same theme at
    the next start. *)
Theorem toggle_twice_restores_theme :
  toggleTheme light = dark
  /\ toggleTheme dark = light
  /\ (forall t : Theme, toggleTheme (toggleTheme t) = t)
  /\ (forall (t : Theme) (prefersDark : bool),
         initialTheme (Some (storedTheme t)) prefersDark = t)
  /\ (forall c : Config,
         reachable c ->
         run [ToggleTheme; ToggleTheme] c = Some c
         /\ exists c1,
             step ToggleTheme c = Some c1
             /\ theme (state c1) = toggleTheme (theme (state c))
             /\ localStorage_theme c1
                = Some (storedTheme (toggleTheme (theme (state c))))).
Proof.
  split; [reflexivity|]. split; [reflexivity|].
  assert (T : forall t, toggleTheme (toggleTheme t) = t) by (now intros [|]).
  split; [exact T|]. split; [now intros [|] b|].
  intros c Hc. destruct (reachable_invariant Hc) as (_ & _ & Hth).
  split.
  - destruct c as [[ms l e t a h] n ls]. simpl in *.
    unfold themeEffect, setTheme. simpl. rewrite T, Hth. reflexivity.
  - eexists. repeat split.
Qed.

Lemma toggle_twice_restores_theme_witness :
  run [ToggleTheme; ToggleTheme] (initial light true) = Some (initial light true).
Proof.
  exact (proj1 (proj2 (proj2 (proj2 (proj2 toggle_twice_restores_theme)))
                      (initial light true) (reachable_initial light true))).
Defined.

(** The whole turn of a send whose API call throws, or that finds no
    client: the store gains the user entry and the failure entry, the
    history the user entry only. *)
Lemma failed_turn (txt : jsstring) (st : State) :
  trim txt <> [] ->
  isLoading st = false ->
  let st' := handleSendMessage txt Rejected st in
  messages st' = messages st
                 ++ [newUserMessage txt; mkMessage ai errorMessage None]
  /\ historyRef st' = historyRef st ++ [userContent txt]
  /\ error st' = Some errorMessage
  /\ isLoading st' = false.
Proof.
  intros Htxt Hload. unfold handleSendMessage, handleSendMessage_begin, rejects.
  rewrite Hload. destruct (trim txt); [contradiction|]. simpl.
  destruct (aiRef st); simpl; rewrite <- app_assoc; repeat split.
Qed.

(* ------------------------------------------------------------------ *)
(** ** Further properties of the session *)

Section Steps.

Lemma step_Stepped ev c c' : step ev c = Some c' -> Stepped c ev c'.
Proof.
  intro Hstep. destruct ev as [txt|s| |]; simpl in Hstep.
  - destruct (begin_cases txt (state c)) as [[R E]|[(R & A & E)|(R & A & E)]];
      rewrite E in Hstep; injection Hstep as <-.
    + rewrite config_eta. now constructor.
    + apply rejects_false in R as [T L]. now constructor.
    + apply rejects_false in R as [T L]. constructor; try assumption.
      destruct (aiRef (state c)) as [[]|]; [reflexivity | contradiction].
  - destruct (inflight c) as [|n] eqn:F; [discriminate|].
    injection Hstep as <-. now constructor.
  - injection Hstep as <-. constructor.
  - injection Hstep as <-. constructor.
Qed.

(** A property kept by every step holds after a run. *)
Lemma run_keeps (P : Config -> Prop) :
  (forall ev c c', P c -> step ev c = Some c' -> P c') ->
  forall evs c c', P c -> run evs c = Some c' -> P c'.
Proof.
  intros Hkeep evs. induction evs as [|ev evs IH]; simpl; intros c c' Hc Hrun.
  - now injection Hrun as <-.
  - destruct (step ev c) as [c1|] eqn:E; [|discriminate].
    exact (IH c1 c' (Hkeep ev c c1 Hc E) Hrun).
Qed.

Lemma lastIsUser_snoc (l : list Message) (m : Message) :
  Page.lastIsUser (l ++ [m]) = Sender_eqb (sender m) user.
Proof.
  unfold Page.lastIsUser. rewrite length_app. simpl.
  replace (length l + 1 - 1) with (length l) by lia.
  rewrite nth_error_app2 by lia. now rewrite Nat.sub_diag.
Qed.

Lemma noModelPair_snoc (h : list Content) (x : Content) :
  noModelPair (h ++ [x])
  = noModelPair h && negb (isModel (last h (userContent [])) && isModel x).
Proof.
  induction h as [|a [|b h] IH].
  - reflexivity.
  - simpl. now rewrite !andb_true_r.
  - change (noModelPair ((a :: b :: h) ++ [x]))
      with (negb (isModel a && isModel b) && noModelPair ((b :: h) ++ [x])).
    rewrite IH.
    change (noModelPair (a :: b :: h))
      with (negb (isModel a && isModel b) && noModelPair (b :: h)).
    change (last (a :: b :: h) (userContent []))
      with (last (b :: h) (userContent [])).
    now rewrite andb_assoc.
Qed.

Lemma awaitsReply_snoc (h : list Content) (x : Content) :
  awaitsReply (h ++ [x]) = negb (isModel x).
Proof. unfold awaitsReply. now rewrite last_last. Qed.

Lemma settledShape_initial t k : settledShape (initial t k).
Proof.
  destruct k; (split; [discriminate|]); repeat split; auto.
Qed.

Lemma settledShape_step ev c c' :
  invariant c -> settledShape c -> step ev c = Some c' -> settledShape c'.
Proof.
  intros (Hfl & _ & _) (Hload & Herr & Hpair & Huser) Hstep.
  destruct (step_Stepped _ _ Hstep) as [txt R|txt T L A|txt T L A|s n F| |].
  - exact (conj Hload (conj Herr (conj Hpair Huser))).
  - split; [discriminate|]. simpl. repeat split.
    + now right; right.
    + rewrite noModelPair_snoc, Hpair. simpl. now rewrite andb_false_r.
    + rewrite !Forall_app. repeat split; [exact Huser| |];
        repeat constructor; discriminate.
  - split; [|split; [|split]]; simpl.
    + intros _. repeat split; try assumption.
      * right. apply lastIsUser_snoc.
      * apply awaitsReply_snoc.
    + now left.
    + rewrite noModelPair_snoc, Hpair. simpl. now rewrite andb_false_r.
    + rewrite Forall_app. split; [exact Huser|]. now repeat constructor.
  - assert (L : isLoading (state c) = true).
    { destruct (isLoading (state c)); [reflexivity|]. simpl in Hfl. lia. }
    destruct (Hload L) as (He & Ha & Hm & Hw).
    split; [destruct s; discriminate|].
    destruct s as [response|]; simpl; repeat split.
    + rewrite He. now left.
    + rewrite noModelPair_snoc, Hpair. unfold awaitsReply in Hw.
      simpl. now rewrite andb_true_r.
    + rewrite Forall_app. split; [exact Huser|].
      repeat constructor; discriminate.
    + now right; right.
    + exact Hpair.
    + rewrite Forall_app. split; [exact Huser|].
      repeat constructor; discriminate.
  - split; [|split; [|split]]; simpl; auto.
    intro L. destruct (Hload L) as (He & Ha & _ & _). auto.
  - split; [|split; [|split]]; simpl; auto.
Qed.

Lemma reachable_settledShape c : reachable c -> settledShape c.
Proof.
  induction 1 as [t k|c ev c' Hc IH Hstep].
  - apply settledShape_initial.
  - exact (settledShape_step ev (reachable_invariant Hc) IH Hstep).
Qed.

End Steps.

Section Alternation.

Lemma snoc_positions (A : Type) (P : nat -> A -> Prop) (l : list A) (x : A) :
  (forall i a, nth_error l i = Some a -> P i a) ->
  P (length l) x ->
  forall i a, nth_error (l ++ [x]) i = Some a -> P i a.
Proof.
  intros Hl Hx i a Hi.
  destruct (Nat.lt_ge_cases i (length l)) as [Hlt|Hge].
  - rewrite nth_error_app1 in Hi by exact Hlt. now apply Hl.
  - rewrite nth_error_app2 in Hi by exact Hge.
    destruct (i - length l) as [|k] eqn:E; simpl in Hi.
    + injection Hi as <-. now replace i with (length l) by lia.
    + now destruct k.
Qed.

Lemma even_snoc (A : Type) (l : list A) (x : A) :
  Nat.even (length (l ++ [x])) = negb (Nat.even (length l)).
Proof.
  rewrite length_app. simpl. rewrite Nat.add_1_r, Nat.even_succ.
  now rewrite <- Nat.negb_even.
Qed.

Lemma orderly_alternates c : orderly c -> alternates c.
Proof.
  induction 1 as [t k|c ev c' Hc [Hpos Hpar] Hstep Hclear].
  - destruct k; (split; [intros [|i] m; discriminate | reflexivity]).
  - pose proof (reachable_invariant (orderly_reachable Hc)) as (Hfl & _ & _).
    destruct (step_Stepped _ _ Hstep) as [txt R|txt T L A|txt T L A|s n F| |];
      unfold alternates; simpl.
    + now split.
    + rewrite L in Hpar. split.
      * apply snoc_positions; [apply snoc_positions; [exact Hpos|]|].
        -- now rewrite Hpar.
        -- now rewrite even_snoc, Hpar.
      * now rewrite !even_snoc, Hpar.
    + rewrite L in Hpar. split.
      * apply snoc_positions; [exact Hpos|]. now rewrite Hpar.
      * now rewrite even_snoc, Hpar.
    + assert (L : isLoading (state c) = true).
      { destruct (isLoading (state c)); [reflexivity|]. simpl in Hfl. lia. }
      rewrite L in Hpar.
      destruct s as [response|]; simpl; (split;
        [apply snoc_positions; [exact Hpos|]; now rewrite Hpar
        |now rewrite even_snoc, Hpar]).
    + split; [intros [|i] m; discriminate|].
      now rewrite (Hclear eq_refl).
    + now split.
Qed.


End Alternation.

(* ------------------------------------------------------------------ *)
(** ** The conversation in the store and in the history *)

(** In a session in which the chat is not cleared during a pending
    request, the store alternates strictly: the user's messages are at the
    even positions, the assistant's (replies and failure entries) at the odd
    ones; its length is even exactly when nothing is pending; and the
    history is empty or starts with a user entry. *)
Theorem turns_alternate :
  forall c : Config,
    orderly c ->
    (forall i m, nth_error (messages (state c)) i = Some m ->
                 sender m = if Nat.even i then user else ai)
    /\ Nat.even (length (messages (state c))) = negb (isLoading (state c))
    /\ (historyRef (state c) = []
        \/ exists txt rest, historyRef (state c) = userContent txt :: rest).
Proof.
  intros c Ho. destruct (orderly_alternates Ho) as [Hpos Hpar].
  split; [exact Hpos|]. split; [exact Hpar|].
  destruct (reachable_invariant (orderly_reachable Ho)) as (_ & Hh & _).
  rewrite Hh. destruct (messages (state c)) as [|[snd txt srcs] l]; [now left|].
  right. specialize (Hpos 0 _ eq_refl). simpl in Hpos. subst snd.
  now exists txt, (map shadow (filter answered l)).
Qed.

Lemma turns_alternate_witness :
  exists c,
    run two_sends (initial light true) = Some c
    /\ (forall i m, nth_error (messages (state c)) i = Some m ->
                    sender m = if Nat.even i then user else ai)
    /\ Nat.even (length (messages (state c))) = negb (isLoading (state c)).
Proof.
  destruct (run two_sends (initial light true)) as [c|] eqn:E;
    [|discriminate E].
  exists c. split; [reflexivity|].
  assert (Ho : orderly c).
  { eapply run_orderly; [apply (orderly_initial light true) | exact E |].
    repeat constructor; discriminate. }
  destruct (turns_alternate Ho) as (H1 & H2 & _). now split.
Defined.

(** In every reachable state the history holds no two model entries in a
    row, and while a request is pending it is empty or ends with a user
    entry, so that the reply, when it comes, never follows another reply. *)
Theorem history_has_no_model_pair :
  forall c : Config,
    reachable c ->
    noModelPair (historyRef (state c)) = true
    /\ (isLoading (state c) = true ->
        awaitsReply (historyRef (state c)) = true)
    /\ forall response c',
        step (Settle (Fulfilled response)) c = Some c' ->
        noModelPair (historyRef (state c')) = true.
Proof.
  intros c Hc.
  destruct (reachable_settledShape Hc) as (Hload & _ & Hpair & _).
  split; [exact Hpair|]. split; [intro L; now apply Hload|].
  intros response c' Hstep.
  now destruct (reachable_settledShape (reachable_step _ Hc Hstep))
    as (_ & _ & H & _).
Qed.

Lemma history_has_no_model_pair_witness :
  exists c,
    run [SendMessage (lit "hi"); ClearChat;
         Settle (Fulfilled (grounded (lit "late") []));
         SendMessage (lit "again")] (initial light true) = Some c
    /\ historyRef (state c) = [modelContent (lit "late"); userContent (lit "again")]
    /\ noModelPair (historyRef (state c)) = true.
Proof.
  destruct (run [SendMessage (lit "hi"); ClearChat;
                 Settle (Fulfilled (grounded (lit "late") []));
                 SendMessage (lit "again")] (initial light true))
    as [c|] eqn:E; [|vm_compute in E; discriminate E].
  exists c. split; [reflexivity|].
  assert (Hc : reachable c).
  { eapply run_reachable; [apply (reachable_initial light true) | exact E]. }
  split; [|exact (proj1 (history_has_no_model_pair Hc))].
  vm_compute in E. now injection E as <-.
Defined.

(** A session whose client could not be constructed never issues an API
    call and is never loading between events: no settlement can occur, the
    error banner is always up, the history holds user entries only, and
    every assistant entry of the store is the failure entry. *)
Theorem session_without_client :
  forall (t : Theme) (evs : list Event) (c : Config),
    run evs (initial t false) = Some c ->
    aiRef (state c) = None
    /\ inflight c = 0
    /\ isLoading (state c) = false
    /\ (forall s, step (Settle s) c = None)
    /\ (Page.banner (state c) = Some initFailure
        \/ Page.banner (state c) = Some errorMessage)
    /\ Forall (fun h => role h = user_role) (historyRef (state c))
    /\ Forall (fun m => sender m = ai ->
                        text m = errorMessage /\ sources m = None)
              (messages (state c)).
Proof.
  intros t evs c Hrun.
  assert (N : noClient c).
  { apply (run_keeps noClient) with (evs := evs) (c := initial t false);
      [|repeat split; (now left) || constructor|exact Hrun].
    clear. intros ev c c' (Ha & Hfl & Hl & He & Hh & Hm) Hstep.
    destruct (step_Stepped _ _ Hstep) as [txt R|txt T L A|txt T L A|s n F| |];
      unfold noClient; simpl.
    - now repeat split.
    - repeat split; try assumption.
      + now right.
      + rewrite Forall_app. split; [exact Hh|]. now repeat constructor.
      + rewrite !Forall_app. repeat split; [exact Hm| |];
          repeat constructor; (discriminate || now split).
    - congruence.
    - congruence.
    - repeat split; try assumption; constructor.
    - now repeat split. }
  destruct N as (Ha & Hfl & Hl & He & Hh & Hm).
  repeat split; try assumption.
  - intro s. simpl. now rewrite Hfl.
  - unfold Page.banner. destruct He as [-> | ->]; [now left | now right].
Qed.

Lemma session_without_client_witness :
  exists c,
    run [SendMessage (lit "hi"); ClearChat; SendMessage (lit "again")]
        (initial dark false) = Some c
    /\ inflight c = 0
    /\ isLoading (state c) = false
    /\ messages (state c)
       = [newUserMessage (lit "again"); mkMessage ai errorMessage None].
Proof.
  destruct (run [SendMessage (lit "hi"); ClearChat; SendMessage (lit "again")]
                (initial dark false)) as [c|] eqn:E; [|discriminate E].
  exists c. split; [reflexivity|].
  destruct (session_without_client _ _ E) as (_ & H1 & H2 & _).
  repeat split; try assumption.
  vm_compute in E. now injection E as <-.
Defined.

(* ------------------------------------------------------------------ *)
(** ** What the page shows *)





(** The error banner shows, when it shows, one of the two fixed texts; it
    is never up while a request is pending, so never together with the
    typing placeholder. *)
Theorem banner_texts :
  forall c : Config,
    reachable c ->
    Page.banner (state c) = error (state c)
    /\ (Page.banner (state c) = None
        \/ Page.banner (state c) = Some initFailure
        \/ Page.banner (state c) = Some errorMessage)
    /\ (isLoading (state c) = true -> Page.banner (state c) = None)
    /\ (In typing (Page.main (state c)) -> Page.banner (state c) = None).
Proof.
  intros c Hc.
  destruct (reachable_settledShape Hc) as (Hload & Herr & _).
  assert (B : Page.banner (state c) = error (state c)).
  { unfold Page.banner. now destruct Herr as [-> | [-> | ->]]. }
  rewrite B. split; [reflexivity|]. split; [exact Herr|].
  assert (HL : isLoading (state c) = true -> error (state c) = None).
  { intro L. now apply Hload. }
  split; [exact HL|].
  intro Hin. apply HL. unfold Page.main in Hin.
  destruct (isLoading (state c)); [reflexivity|].
  simpl in Hin. rewrite app_nil_r in Hin.
  apply in_app_or in Hin as [Hin|Hin].
  - destruct (_ && _); [destruct Hin as [Hin|[]]; discriminate | destruct Hin].
  - apply in_map_iff in Hin as (m & Hm & _). discriminate.
Qed.

Lemma banner_texts_witness :
  exists c,
    run [SendMessage (lit "hi"); Settle Rejected] (initial light true) = Some c
    /\ Page.banner (state c) = Some errorMessage.
Proof.
  destruct (run [SendMessage (lit "hi"); Settle Rejected] (initial light true))
    as [c|] eqn:E; [|vm_compute in E; discriminate E].
  exists c. split; [reflexivity|].
  assert (Hc : reachable c).
  { eapply run_reachable; [apply (reachable_initial light true) | exact E]. }
  rewrite (proj1 (banner_texts Hc)).
  vm_compute in E. now injection E as <-.
Defined.

(** In every reachable configuration the preference store holds the
    current theme, so a page loaded from it starts in that theme whatever
    the system's colour scheme is. *)
Theorem theme_survives_reload :
  forall c : Config,
    reachable c ->
    forall prefersDark : bool,
      initialTheme (localStorage_theme c) prefersDark = theme (state c).
Proof.
  intros c Hc p. destruct (reachable_invariant Hc) as (_ & _ & ->).
  now destruct (theme (state c)).
Qed.

Lemma theme_survives_reload_witness :
  exists c,
    run [ToggleTheme; SendMessage (lit "hi"); ClearChat] (initial light true)
    = Some c
    /\ theme (state c) = dark
    /\ initialTheme (localStorage_theme c) false = dark.
Proof.
  destruct (run [ToggleTheme; SendMessage (lit "hi"); ClearChat]
                (initial light true)) as [c|] eqn:E;
    [|vm_compute in E; discriminate E].
  exists c. split; [reflexivity|].
  assert (Hc : reachable c).
  { eapply run_reachable; [apply (reachable_initial light true) | exact E]. }
  rewrite (theme_survives_reload Hc false).
  vm_compute in E. now injection E as <-.
Defined.

(* ------------------------------------------------------------------ *)
(** ** The input box *)

(** The send button is enabled exactly when the handler would accept the
    text: its [disabled] property is the handler's guard, and a text sent
    while the button is enabled gets past the guard. *)
Theorem button_follows_guard :
  forall (txt : jsstring) (st : State),
    ChatInput.sendDisabled (isLoading st) txt = rejects txt st
    /\ (ChatInput.sendDisabled (isLoading st) txt = false ->
        snd (handleSendMessage_begin txt st) <> Returned
        /\ exists rest,
            messages (fst (handleSendMessage_begin txt st))
            = messages st ++ newUserMessage txt :: rest).
Proof.
  intros txt st.
  assert (E : ChatInput.sendDisabled (isLoading st) txt = rejects txt st).
  { unfold ChatInput.sendDisabled, rejects. apply orb_comm. }
  split; [exact E|]. rewrite E. intro R.
  destruct (begin_cases txt st) as [[R' _]|[(_ & _ & ->)|(_ & _ & ->)]].
  - congruence.
  - split; [discriminate|]. simpl. rewrite <- app_assoc. now eexists.
  - split; [discriminate|]. now exists [].
Qed.

Lemma button_follows_guard_witness :
  ChatInput.sendDisabled false (lit "hi") = false
  /\ snd (handleSendMessage_begin (lit "hi") (mount light true)) <> Returned.
Proof.
  split; [reflexivity|].
  apply (proj2 (button_follows_guard (lit "hi") (mount light true))).
  reflexivity.
Defined.

(** A submit with a blank text in the box calls nothing and leaves the
    text in the box.  A submit with any other text, while nothing is
    pending, empties the box and appends the text to the store and to the
    history exactly as it was typed, surrounding white space included. *)
Theorem submit_sends_text_as_typed :
  forall (input : jsstring) (st : State),
    (trim input = [] -> Page.submit input st = (input, st, None))
    /\ (trim input <> [] -> isLoading st = false ->
        exists st' p rest,
          Page.submit input st = ([], st', Some p)
          /\ p <> Returned
          /\ messages st' = messages st ++ mkMessage user input None :: rest
          /\ historyRef st'
             = historyRef st ++ [mkContent user_role [mkPart input]]).
Proof.
  intros input st. unfold Page.submit, ChatInput.handleSubmit. split.
  - now intros ->.
  - intros T L. destruct (trim input) eqn:E; [contradiction|]. simpl.
    unfold handleSendMessage_begin, rejects. rewrite E, L. simpl.
    destruct (aiRef st); simpl.
    + exists (enter input st), Awaiting, []. repeat split. discriminate.
    + eexists _, Settled, _. repeat split; [discriminate|].
      simpl. now rewrite <- app_assoc.
Qed.

Lemma submit_sends_text_as_typed_witness :
  trim padded_hi = lit "hi"
  /\ exists st' p rest,
      Page.submit padded_hi (mount light true) = ([], st', Some p)
      /\ p <> Returned
      /\ messages st' = mkMessage user padded_hi None :: rest
      /\ historyRef st' = [mkContent user_role [mkPart padded_hi]].
Proof.
  split; [reflexivity|].
  apply (proj2 (submit_sends_text_as_typed padded_hi (mount light true)));
    [discriminate | reflexivity].
Defined.

(** [handleSubmit] does not look at [isLoading]: a submit that runs while a
    request is pending empties the box although the handler takes nothing,
    so the typed text is gone without having been sent. *)
Theorem submit_while_loading_drops_text :
  forall (input : jsstring) (st : State),
    trim input <> [] ->
    isLoading st = true ->
    Page.submit input st = ([], st, Some Returned).
Proof.
  intros input st T L. unfold Page.submit, ChatInput.handleSubmit.
  destruct (trim input) eqn:E; [contradiction|]. simpl.
  unfold handleSendMessage_begin, rejects. now rewrite L, orb_true_r.
Qed.

Lemma submit_while_loading_drops_text_witness :
  let st := enter (lit "first") (mount light true) in
  Page.submit (lit "second") st = ([], st, Some Returned).
Proof.
  apply (submit_while_loading_drops_text
           (lit "second") (enter (lit "first") (mount light true)));
    [discriminate | reflexivity].
Defined.

(** The textarea is never taller than 120px and never taller than its
    content; it scrolls exactly when its content is taller than that, and
    otherwise it is as tall as its content. *)
Theorem resize_bounds :
  forall scrollHeight : Z,
    let s := ChatInput.resize scrollHeight in
    (ChatInput.style_height s <= 120)%Z
    /\ (ChatInput.style_height s <= scrollHeight)%Z
    /\ (ChatInput.style_overflowY s = ChatInput.overflow_auto
        <-> (ChatInput.style_height s < scrollHeight)%Z)
    /\ (ChatInput.style_overflowY s = ChatInput.overflow_hidden
        <-> ChatInput.style_height s = scrollHeight).
Proof.
  intro h. unfold ChatInput.resize, ChatInput.maxHeight. simpl.
  change (5 * 24)%Z with 120%Z.
  destruct (Z.gtb_spec h 120) as [G|G].
  - rewrite Z.min_r by lia. repeat split; try lia; try discriminate.
  - rewrite Z.min_l by lia. repeat split; try lia; discriminate.
Qed.

(* ------------------------------------------------------------------ *)
(** ** Whole turns *)

(** A whole turn whose API call is fulfilled: the store gains the user
    entry and the reply, the history the two entries with the same texts,
    no error is set and [isLoading] is false again. *)
Theorem fulfilled_turn :
  forall (txt : jsstring) (response : GenerateContentResponse) (st : State),
    trim txt <> [] ->
    isLoading st = false ->
    aiRef st = Some Client ->
    let st' := handleSendMessage txt (Fulfilled response) st in
    messages st' = messages st ++ [newUserMessage txt; aiResponse response]
    /\ historyRef st'
       = historyRef st
         ++ [userContent txt; modelContent (response_text response)]
    /\ map shadow [newUserMessage txt; aiResponse response]
       = [userContent txt; modelContent (response_text response)]
    /\ error st' = None
    /\ isLoading st' = false.
Proof.
  intros txt response st T L A.
  unfold handleSendMessage, handleSendMessage_begin, rejects.
  rewrite L. destruct (trim txt); [contradiction|]. simpl. rewrite A. simpl.
  rewrite <- !app_assoc. repeat split.
Qed.

Lemma fulfilled_turn_witness :
  let st' := handleSendMessage (lit "hi")
               (Fulfilled (grounded (lit "hello") [mkChunk (Some site_a)]))
               (mount light true) in
  messages st'
  = [newUserMessage (lit "hi"); mkMessage ai (lit "hello") (Some [site_a])]
  /\ historyRef st' = [userContent (lit "hi"); modelContent (lit "hello")].
Proof.
  destruct (@fulfilled_turn (lit "hi")
              (grounded (lit "hello") [mkChunk (Some site_a)])
              (mount light true)) as (H1 & H2 & _);
    [discriminate | reflexivity | reflexivity |].
  split; [exact H1 | exact H2].
Defined.

Lemma failed_turn_witness :
  let st' := handleSendMessage (lit "hi") Rejected (mount light false) in
  messages st' = [newUserMessage (lit "hi"); mkMessage ai errorMessage None]
  /\ historyRef st' = [userContent (lit "hi")]
  /\ error st' = Some errorMessage
  /\ isLoading st' = false.
Proof.
  apply (@failed_turn (lit "hi") (mount light false));
    [discriminate | reflexivity].
Defined.

(* ------------------------------------------------------------------ *)
(** ** The sources under a message *)





(** At the input of C1, the source that the handler keeps for the citation
    with the null URI has no title either, and ChatMessage throws on it
    whatever the URL parser accepts: the reply cannot be rendered. *)
Lemma null_uri_citation_breaks_render :
  forall hostname : jsstring -> option jsstring,
    let response :=
      grounded (lit "ok")
        [mkChunk (Some site_a); mkChunk (Some (mkSource None None))] in
    ChatMessage.render hostname (aiResponse response) false = None
    /\ ChatMessage.render hostname
         (aiResponse (grounded (lit "ok") [mkChunk (Some site_a)])) false
       <> None.
Proof.
  intro hostname. split; [reflexivity | discriminate].
Qed.
